(** * machine-as-script: the script adapter of [index.js]

    A shallow embedding of [runMachineAsScript] and of the default exit
    handlers it binds, followed by the properties of the adapter.

    Modelling conventions.
    - JavaScript values are the inductive [jsval].  [VNum n] is the double
      nearest to the integer [n]; a number that is no integer (a fraction,
      [NaN], an infinity) is [VFrac], given by the text it is written as,
      since the adapter does no arithmetic.  Strings are sequences of code
      units.
    - A dictionary (a plain JS object) is an association list with unique
      keys, kept in the order in which its keys are enumerated; [Dict.set]
      writes in place when the key exists and appends otherwise, as property
      assignment does.  [enumerate] gives the order in which the keys of
      an object are visited: the array indices in ascending order, then
      the other keys as they were added.  The inputs of a machine are kept
      in the order in which [_.each] visits them.
    - The caller's options object is threaded through the call as explicit
      state: [caller_opts] is the object as the caller finds it afterwards.
    - [process.env] is a finite map from names to strings, and [yargs.argv]
      is the dictionary the flag parser produced.
    - The collaborators ([machine], [rttc], [lodash]'s [kebabCase]) are
      interfaces, given as type classes; [rttc.parseHuman] returns a value,
      as its interface is described.  [commander] is the usage line, the
      list of options registered with it, and whether [program.parse]
      returns or ends the process. *)

From stdpp Require Import base option list strings gmap pretty.
From Stdlib Require Import ZArith Ascii.

Set Warnings "-register-all".

Open Scope string_scope.
Open Scope list_scope.

(** ** JavaScript values *)

Inductive jsval : Type :=
| VUndef
| VNull
| VBool (b : bool)
| VNum (n : Z)
| VStr (s : string)
| VArr (items : list jsval)
| VObj (props : list (string * jsval))
| VFun (src : string) (props : list (string * jsval))
| VFrac (text : string).

(** What ends a call that does not return: a thrown value, or the end of
    the process ([commander] exits on a command line it rejects). *)
Inductive exn : Type :=
| TypeError (msg : string)
| Error (msg : string)
| ProcessExit.

Inductive outcome (A : Type) : Type :=
| Ok (a : A)
| Throw (e : exn).
Arguments Ok {A} a.
Arguments Throw {A} e.

#[global] Instance outcome_ret : MRet outcome := fun A a => Ok a.

#[global] Instance outcome_bind : MBind outcome := fun A B k m =>
  match m with
  | Ok a => k a
  | Throw e => Throw e
  end.

(** ** Dictionaries: plain objects with ordered own keys *)

Module Dict.
Section dict.
Context {V : Type}.

Fixpoint get (k : string) (d : list (string * V)) : option V :=
  match d with
  | [] => None
  | (k', v) :: r => if String.eqb k k' then Some v else get k r
  end.

(** [d[k] = v] *)
Fixpoint set (k : string) (v : V) (d : list (string * V)) : list (string * V) :=
  match d with
  | [] => [(k, v)]
  | (k', v') :: r =>
      if String.eqb k k' then (k, v) :: r else (k', v') :: set k v r
  end.

(** [delete d[k]] *)
Fixpoint del (k : string) (d : list (string * V)) : list (string * V) :=
  match d with
  | [] => []
  | (k', v') :: r =>
      if String.eqb k k' then del k r else (k', v') :: del k r
  end.

Definition has (k : string) (d : list (string * V)) : bool :=
  match get k d with Some _ => true | None => false end.

Definition keys (d : list (string * V)) : list string := map fst d.

(** [_.extend(target, source)]: every own key of [source], in order. *)
Definition extend (target source : list (string * V)) : list (string * V) :=
  fold_left (fun acc kv => set (fst kv) (snd kv) acc) source target.
End dict.
End Dict.

(** ** Numbers as text

    [Number.prototype.toString] on the double nearest to an integer: every
    digit below [2^53], then the shortest decimal that reads back as the
    same double, in exponent notation from [1e21] on. *)

(** The double nearest to a positive integer, ties to even, as a 53-bit
    mantissa and a binary exponent. *)
Definition nearest_double (n : Z) : Z * Z :=
  let shift := (Z.log2 n - 52)%Z in
  if (shift <=? 0)%Z then (n, 0%Z)
  else
    let q := (n / 2 ^ shift)%Z in
    let r := (n mod 2 ^ shift)%Z in
    let half := (2 ^ (shift - 1))%Z in
    let q' := if (half <? r)%Z || ((r =? half)%Z && Z.odd q)
              then (q + 1)%Z else q in
    if (q' =? 2 ^ 53)%Z then ((2 ^ 52)%Z, (shift + 1)%Z) else (q', shift).

(** Whether the decimal [c] reads back as the double [q * 2 ^ shift], for
    a positive [shift]. *)
Definition reads_back (q shift c : Z) : bool :=
  let m4 := (4 * q * 2 ^ shift)%Z in
  let up4 := (m4 + 2 ^ (shift + 1))%Z in
  let lo4 :=
    (m4 - (if q =? 2 ^ 52 then 2 ^ shift else 2 ^ (shift + 1)))%Z in
  if Z.even q then (lo4 <=? 4 * c)%Z && (4 * c <=? up4)%Z
  else (lo4 <? 4 * c)%Z && (4 * c <? up4)%Z.

Definition decimal_digits (m : Z) : Z := Z.of_nat (String.length (pretty m)).

(** The shortest decimal that reads back as the double: its digits and
    the power of ten they are scaled by, trying [k] digits and more. *)
Fixpoint shortest_from (fuel : nat) (k : Z) (q shift : Z) : Z * Z :=
  let m := (q * 2 ^ shift)%Z in
  let p := (10 ^ (decimal_digits m - k))%Z in
  let s := ((m + p / 2) / p)%Z in
  match fuel with
  | O => (m, 0%Z)
  | S fuel' =>
      if (k <? decimal_digits m)%Z && reads_back q shift (s * p)%Z
      then (s, (decimal_digits m - k)%Z)
      else shortest_from fuel' (k + 1)%Z q shift
  end.

Fixpoint strip_zeros (fuel : nat) (s e : Z) : Z * Z :=
  match fuel with
  | O => (s, e)
  | S fuel' =>
      if (s mod 10 =? 0)%Z && (0 <? s)%Z
      then strip_zeros fuel' (s / 10)%Z (e + 1)%Z
      else (s, e)
  end.

Definition exponent_form (s e : Z) : string :=
  let stripped := strip_zeros 400 s e in
  match pretty stripped.1 with
  | String d EmptyString => String d EmptyString
  | String d rest => String d ("." +:+ rest)
  | EmptyString => ""
  end +:+ "e+" +:+ pretty (stripped.2 + decimal_digits stripped.1 - 1)%Z.

Definition nat_number_to_string (n : Z) : string :=
  if (n <? 2 ^ 53)%Z then pretty n
  else if (2 ^ 1024 - 2 ^ 970 <=? n)%Z then "Infinity"
  else
    let d := nearest_double n in
    let se := shortest_from 18 1%Z d.1 d.2 in
    if (se.1 * 10 ^ se.2 <? 10 ^ 21)%Z then pretty (se.1 * 10 ^ se.2)%Z
    else exponent_form se.1 se.2.

(** [n + ''] for the number [n]. *)
Definition number_to_string (n : Z) : string :=
  if (n <? 0)%Z then "-" +:+ nat_number_to_string (- n)%Z
  else nat_number_to_string n.

(** ** Primitive operations of the language *)

(** [!!v] *)
Definition truthy (v : jsval) : bool :=
  match v with
  | VUndef | VNull => false
  | VBool b => b
  | VNum n => negb (Z.eqb n 0)
  | VStr s => negb (String.eqb s "")
  | VFrac text => negb (String.eqb text "NaN")
  | VArr _ | VObj _ | VFun _ _ => true
  end.

Definition isUndefined (v : jsval) : bool :=
  match v with VUndef => true | _ => false end.

Definition isString (v : jsval) : bool :=
  match v with VStr _ => true | _ => false end.

Definition isArray (v : jsval) : bool :=
  match v with VArr _ => true | _ => false end.

Definition isFunction (v : jsval) : bool :=
  match v with VFun _ _ => true | _ => false end.

(** [v + ''], which is also the property key [v] denotes in [o[v]]. *)
Fixpoint to_str (v : jsval) : string :=
  match v with
  | VUndef => "undefined"
  | VNull => "null"
  | VBool true => "true"
  | VBool false => "false"
  | VNum n => number_to_string n
  | VFrac text => text
  | VStr s => s
  | VArr items =>
      let elem x :=
        match x with
        | VUndef | VNull => ""
        | _ => to_str x
        end in
      (fix join (l : list jsval) : string :=
         match l with
         | [] => ""
         | [x] => elem x
         | x :: r => elem x +:+ "," +:+ join r
         end) items
  | VObj _ => "[object Object]"
  | VFun src _ => src
  end.

(** [v.k] on a value that is neither [undefined] nor [null]. *)
Definition prop (k : string) (v : jsval) : jsval :=
  match v with
  | VObj props | VFun _ props => default VUndef (Dict.get k props)
  | _ => VUndef
  end.

(** [delete v.k] *)
Definition delete_prop (k : string) (v : jsval) : jsval :=
  match v with
  | VObj props => VObj (Dict.del k props)
  | VFun src props => VFun src (Dict.del k props)
  | _ => v
  end.

(** [s[0]] for a string: its first code unit, or [undefined]. *)
Definition char0 (s : string) : jsval :=
  match s with
  | EmptyString => VUndef
  | String c _ => VStr (String c EmptyString)
  end.

Fixpoint char_at (i : nat) (s : string) : jsval :=
  match s, i with
  | EmptyString, _ => VUndef
  | String c _, O => VStr (String c EmptyString)
  | String _ r, S j => char_at j r
  end.

(** [base[i]] for a numeric index [i]. *)
Definition index_at (base : jsval) (i : nat) : outcome jsval :=
  match base with
  | VUndef => Throw (TypeError "Cannot read property of undefined")
  | VNull => Throw (TypeError "Cannot read property of null")
  | VArr items => Ok (default VUndef (items !! i))
  | VStr s => Ok (char_at i s)
  | VObj props | VFun _ props => Ok (default VUndef (Dict.get (pretty i) props))
  | VBool _ | VNum _ | VFrac _ => Ok VUndef
  end.

(** ** The work unit and the collaborators *)

Record inputDef : Type := {
  description : option string;
  friendlyName : option string;
  example : jsval
}.

(** An exit descriptor; an absent field is [VUndef]. *)
Record exitDef : Type := {
  exit_example : jsval;
  getExample : jsval;
  like : jsval;
  itemOf : jsval
}.

(** A runnable ("wet") machine: its declared inputs and exits, in
    enumeration order. *)
Record WetMachine : Type := {
  inputs : list (string * inputDef);
  exits : list (string * exitDef)
}.

(** The [machine] runtime: [Machine.build] on a definition, and the
    runnable that an already built value is. *)
Class MachineRuntime : Type := {
  Machine_build : jsval -> WetMachine;
  asWetMachine : jsval -> WetMachine
}.

(** [rttc]: type inference from an example, and parsing of a string for a
    type schema (third argument: the mode flag). *)
Class Rttc : Type := {
  typeSchema : Type;
  infer : jsval -> typeSchema;
  parseHuman : string -> typeSchema -> bool -> jsval
}.

Class Lodash : Type := {
  kebabCase : jsval -> string
}.

(** [commander]'s program: the usage line and the registered options. *)
Record cmdOption : Type := {
  flags : string;
  optionDescription : option string
}.

Record Commander : Type := {
  usage : string;
  options : list cmdOption;
  (** whether [program.parse(process.argv)] returns, given the options
      registered; otherwise it reports the command line and ends the
      process *)
  parse_returns : list cmdOption -> bool
}.

Definition program_usage (u : string) (program : Commander) : Commander :=
  {| usage := u; options := options program;
     parse_returns := parse_returns program |}.

Definition program_option (o : cmdOption) (program : Commander) : Commander :=
  {| usage := usage program; options := options program ++ [o];
     parse_returns := parse_returns program |}.

(** ** Console output *)

Inductive color : Type := Red | Gray | Green.

Inductive text : Type :=
| Chalk (c : color) (v : jsval)
| Inspect (v : jsval)
| Plain (v : jsval).

Inductive event : Type :=
| console_log (t : text)
| console_error (t : text).

(** An exit handler: what it prints, and whether it returns or throws. *)
Definition handler : Type := jsval -> list event * outcome unit.

Record LiveMachine : Type := {
  wet : WetMachine;
  configured : list (string * jsval);
  errorExit : handler;
  successExit : handler;
  _telltale : string
}.

(** ** Flag derivation (the first loop over [wetMachine.inputs]) *)

(** [String.prototype.toLowerCase] on one code unit below 128: the ASCII
    capitals are lower-cased.  A code unit from 128 on is left as it is
    here, although the language lower-cases the cased letters there
    too. *)
Definition toLowerCase_ascii (c : ascii) : ascii :=
  let n := N_of_ascii c in
  if ((65 <=? n) && (n <=? 90))%N then ascii_of_N (n + 32) else c.

(** ['-' + inputName[0]] *)
Definition _shortcut (inputName : string) : string :=
  "-" +:+ to_str (char0 inputName).

(** [_.contains(shortcutsSoFar, s)] *)
Definition contains (shortcutsSoFar : list string) (s : string) : bool :=
  bool_decide (s ∈ shortcutsSoFar).

(** The shortcut handed to the option ([undefined] when the letter is
    taken), and [shortcutsSoFar] afterwards. *)
Definition optShortcut (shortcutsSoFar : list string) (inputName : string)
  : jsval * list string :=
  if contains shortcutsSoFar (_shortcut inputName) then (VUndef, shortcutsSoFar)
  else (VStr (_shortcut inputName), shortcutsSoFar ++ [_shortcut inputName]).

(** [a || b] on optional strings: the empty string is falsy. *)
Definition or_string (a : option string) (b : string) : string :=
  match a with
  | Some s => if String.eqb s "" then b else s
  | None => b
  end.

Definition determineOptDescription (inputDef : inputDef) : string :=
  let _optDescription :=
    or_string (description inputDef) (or_string (friendlyName inputDef) "") in
  match _optDescription with
  | EmptyString => ""
  | String c rest => String (toLowerCase_ascii c) rest
  end.

(** [util.format('%s, %s', optShortcut, opt)] or [util.format('%s', opt)] *)
Definition optUsage (optShortcut : jsval) (opt : string) : string :=
  if truthy optShortcut then to_str optShortcut +:+ ", " +:+ opt else opt.

Definition flagStep (st : list string * Commander) (entry : string * inputDef)
  : list string * Commander :=
  let inputName := entry.1 in
  let opt := "--" +:+ inputName in
  let sc := optShortcut st.1 inputName in
  let optDescription := determineOptDescription entry.2 in
  let registered :=
    if String.eqb optDescription "" then
      {| flags := optUsage sc.1 opt; optionDescription := None |}
    else
      {| flags := optUsage sc.1 opt; optionDescription := Some optDescription |} in
  (sc.2, program_option registered st.2).

(** The loop, from an empty [shortcutsSoFar]: the letters claimed and the
    program with one option per input. *)
Definition deriveFlags (inputs : list (string * inputDef)) (program : Commander)
  : list string * Commander :=
  fold_left flagStep inputs ([], program_usage "[options]" program).

(** ** Configuration assembly *)

(** [yargs.argv._] *)
Definition argv_ (argv : list (string * jsval)) : jsval :=
  default VUndef (Dict.get "_" argv).

(** CLI options: [_.extend({}, yargs.argv)] without [_] and [$0]. *)
Definition supplyCLI (argv : list (string * jsval)) : list (string * jsval) :=
  Dict.del "$0" (Dict.del "_" (Dict.extend [] argv)).

Definition envStep (envVarNamespace : string) (env : gmap string string)
    (inputConfiguration : list (string * jsval)) (entry : string * inputDef)
  : list (string * jsval) :=
  match env !! (envVarNamespace +:+ entry.1) with
  | None => inputConfiguration
  | Some envVarData => Dict.set entry.1 (VStr envVarData) inputConfiguration
  end.

(** Environment variables, one look-up per declared input. *)
Definition supplyEnv (envVarNamespace : string) (env : gmap string string)
    (inputs : list (string * inputDef))
    (inputConfiguration : list (string * jsval)) : list (string * jsval) :=
  fold_left (envStep envVarNamespace env) inputs inputConfiguration.

(** The special [args] input. *)
Definition supplyArgs (argv : list (string * jsval))
    (inputConfiguration : list (string * jsval)) : list (string * jsval) :=
  if isArray (argv_ argv) then Dict.set "args" (argv_ argv) inputConfiguration
  else inputConfiguration.

(** [_.each(names, function (inputName, i) { cfg[inputName] = tokens[i]; })]
    from index [i] on. *)
Fixpoint positionalFrom (i : nat) (names : list jsval) (tokens : jsval)
    (inputConfiguration : list (string * jsval))
  : outcome (list (string * jsval)) :=
  match names with
  | [] => Ok inputConfiguration
  | inputName :: rest =>
      v ← index_at tokens i;
      positionalFrom (S i) rest tokens
        (Dict.set (to_str inputName) v inputConfiguration)
  end.

Definition supplyPositional (opts_args : jsval) (argv : list (string * jsval))
    (inputConfiguration : list (string * jsval))
  : outcome (list (string * jsval)) :=
  match opts_args with
  | VArr names => positionalFrom 0 names (argv_ argv) inputConfiguration
  | _ => Ok inputConfiguration
  end.

(** The assembled configuration, before coercion. *)
Definition assemble (envVarNamespace : string) (env : gmap string string)
    (inputs : list (string * inputDef)) (opts_args : jsval)
    (argv : list (string * jsval)) : outcome (list (string * jsval)) :=
  supplyPositional opts_args argv
    (supplyArgs argv (supplyEnv envVarNamespace env inputs (supplyCLI argv))).

(** ** Coercion (the [_.reduce] over the assembled configuration) *)

Definition unknownInput (inputName : string) : exn :=
  Error ("Unexpected error: received configuration for unknown input ("
         +:+ inputName +:+ ")").

(** The members every plain object inherits: [wetMachine.inputs[k]] finds
    them when [k] is no input. *)
Definition inherited_names : list string :=
  ["constructor"; "toString"; "toLocaleString"; "valueOf"; "hasOwnProperty";
   "isPrototypeOf"; "propertyIsEnumerable"; "__defineGetter__";
   "__defineSetter__"; "__lookupGetter__"; "__lookupSetter__"; "__proto__"].

(** [wetMachine.inputs[k]] *)
Inductive member : Type :=
| Own (def : inputDef)
| Inherited
| Missing.

Definition lookup_input (inputs : list (string * inputDef)) (k : string)
  : member :=
  match Dict.get k inputs with
  | Some def => Own def
  | None => if bool_decide (k ∈ inherited_names) then Inherited else Missing
  end.


(** The decimal digits of a string, as a number. *)
Fixpoint digits (acc : N) (s : string) : option N :=
  match s with
  | EmptyString => Some acc
  | String c rest =>
      let n := N_of_ascii c in
      if ((48 <=? n) && (n <=? 57))%N then digits (acc * 10 + (n - 48)) rest
      else None
  end.

(** The array index a key is, if it is one: a canonical numeral below
    [2^32 - 1]. *)
Definition array_index (k : string) : option N :=
  match digits 0 k with
  | Some n =>
      if String.eqb (pretty n) k && (n <? 4294967295)%N then Some n else None
  | None => None
  end.

Fixpoint insert_by_index (e : N * (string * jsval))
    (l : list (N * (string * jsval))) : list (N * (string * jsval)) :=
  match l with
  | [] => [e]
  | x :: r => if (e.1 <=? x.1)%N then e :: l else x :: insert_by_index e r
  end.

(** The own entries of an object in the order they are enumerated. *)
Definition enumerate (d : list (string * jsval)) : list (string * jsval) :=
  map snd
    (foldr insert_by_index []
       (omap (fun kv => (fun n => (n, kv)) <$> array_index kv.1) d))
  ++ filter (fun kv => array_index kv.1 = None) d.

(** [lodash]'s test for a length: a whole number from 0 to [2^53 - 1]. *)
Definition isLength (v : jsval) : bool :=
  match v with
  | VNum n => (0 <=? n)%Z && (n <=? 2 ^ 53 - 1)%Z
  | _ => false
  end.

(** What [_.reduce] visits, as the pairs (key handed to the callback,
    value): the indices below [length] when the object has a [length] that
    is one, and its own entries otherwise. *)
Definition visited (d : list (string * jsval)) : list (jsval * jsval) :=
  match Dict.get "length" d with
  | Some (VNum n) =>
      if isLength (VNum n)
      then map (fun i => (VNum (Z.of_nat i),
                          default VUndef (Dict.get (pretty i) d)))
               (seq 0 (Z.to_nat n))
      else map (fun kv => (VStr kv.1, kv.2)) (enumerate d)
  | _ => map (fun kv => (VStr kv.1, kv.2)) (enumerate d)
  end.


(** [inputName === 'args'] *)
Definition is_args (inputName : jsval) : bool :=
  match inputName with
  | VStr s => String.eqb s "args"
  | _ => false
  end.

(** [memo[k] = v]: the key [__proto__] is the prototype, not an own key. *)
Definition assign (k : string) (v : jsval) (memo : list (string * jsval))
  : list (string * jsval) :=
  if String.eqb k "__proto__" then memo else Dict.set k v memo.

Section coercion.
Context `{Rttc}.

(** What a declared key is given: its value as a string, parsed for the
    type of the example. *)
Definition parsedFor (def : inputDef) (raw : jsval) : jsval :=
  let val := to_str raw in
  parseHuman val (infer (example def)) true.

(** The same when [inputDef] is an inherited member, which has no
    example. *)
Definition parsedForInherited (raw : jsval) : jsval :=
  let val := to_str raw in
  parseHuman val (infer VUndef) true.

Definition coerceStep (inputs : list (string * inputDef))
    (memo : list (string * jsval)) (entry : jsval * jsval)
  : outcome (list (string * jsval)) :=
  let inputName := entry.1 in
  match lookup_input inputs (to_str inputName) with
  | Missing =>
      if is_args inputName then Ok memo
      else Throw (unknownInput (to_str inputName))
  | Own inputDef =>
      Ok (assign (to_str inputName) (parsedFor inputDef entry.2) memo)
  | Inherited =>
      Ok (assign (to_str inputName) (parsedForInherited entry.2) memo)
  end.

Fixpoint reduceFrom (inputs : list (string * inputDef))
    (memo : list (string * jsval)) (entries : list (jsval * jsval))
  : outcome (list (string * jsval)) :=
  match entries with
  | [] => Ok memo
  | entry :: rest =>
      memo' ← coerceStep inputs memo entry;
      reduceFrom inputs memo' rest
  end.

Definition coerce (inputs : list (string * inputDef))
    (inputConfiguration : list (string * jsval))
  : outcome (list (string * jsval)) :=
  reduceFrom inputs [] (visited inputConfiguration).
End coercion.

(** ** The default exit handlers *)

(** [console.log(chalk.red('Something went wrong:'))] *)
Definition banner : event :=
  console_log (Chalk Red (VStr "Something went wrong:")).

(** [error: function (err) { ... }] *)
Definition errorHandler : handler := fun err =>
  match err with
  | VUndef | VNull =>
      ([banner], Throw (TypeError "Cannot read property 'stack'"))
  | _ =>
      let stack := prop "stack" err in
      ([banner;
        console_error (if truthy stack then Chalk Gray stack else Plain err)],
       Ok ())
  end.

(** Whether the success exit declares an output. *)
Definition expectsOutput (success : exitDef) : bool :=
  negb (isUndefined (exit_example success))
  || isFunction (getExample success)
  || negb (isUndefined (like success))
  || negb (isUndefined (itemOf success)).

(** [success: function (output) { ... }]; a missing success exit makes the
    test inside [try] throw, which is caught. *)
Definition successHandler (exits : list (string * exitDef)) : handler :=
  fun output =>
    if negb (isUndefined output) then
      match Dict.get "success" exits with
      | None => ([], Ok ())
      | Some success =>
          if expectsOutput success then ([console_log (Inspect output)], Ok ())
          else ([], Ok ())
      end
    else ([console_log (Chalk Green (VStr "OK."))], Ok ()).

(** ** The adapter *)

Definition own_props (v : jsval) : list (string * jsval) :=
  match v with
  | VObj props | VFun _ props => props
  | _ => []
  end.

Definition default_fn : jsval :=
  VFun "function (inputs, exits){ exits.error(new Error('Not implemented yet! (This is a default `fn` injected by `machine-as-script`.)')); }" [].

(** What one call leaves behind: the caller's options object, the
    [commander] program, and the live machine returned (or the error
    thrown). *)
Record Run : Type := {
  caller_opts : jsval;
  program : Commander;
  returned : outcome LiveMachine
}.

Section adapter.
Context `{MachineRuntime} `{Rttc} `{Lodash}.

(** The options object after the choice, and the machine definition. *)
Definition selectMachineDef (opts : jsval) : jsval * jsval :=
  if negb (truthy (prop "machine" opts)) then (opts, opts)
  else (delete_prop "machine" opts, prop "machine" opts).

Definition envVarNamespace (opts : jsval) : string :=
  match prop "envVarNamespace" opts with
  | VStr s => s
  | _ => "___"
  end.

Definition isWet (machineDef : jsval) : bool :=
  truthy (prop "isWetMachine" machineDef)
  || match prop "name" machineDef with
     | VStr s => String.eqb s "_callableMachineWrapper"
     | _ => false
     end.

Definition identity_of (machineDef : jsval) : jsval :=
  if truthy (prop "identity" machineDef) then prop "identity" machineDef
  else if truthy (prop "friendlyName" machineDef)
       then VStr (kebabCase (prop "friendlyName" machineDef))
       else VStr "anonymous-machine-as-script".

Definition defaults (machineDef : jsval) : list (string * jsval) :=
  [ ("identity", identity_of machineDef);
    ("inputs", VObj []);
    ("exits", VObj [ ("success", VObj [("description", VStr "Done.")]);
                     ("error", VObj [("description",
                                      VStr "Unexpected error occurred.")]) ]);
    ("fn", default_fn) ].

Definition wetMachine (machineDef : jsval) : WetMachine :=
  if isWet machineDef then asWetMachine machineDef
  else Machine_build
         (VObj (Dict.extend (defaults machineDef) (own_props machineDef))).

(** [wetMachine(inputConfiguration)], [setExits] and the telltale. *)
Definition liveMachine (wm : WetMachine)
    (inputConfiguration : list (string * jsval)) : LiveMachine :=
  {| wet := wm;
     configured := inputConfiguration;
     errorExit := errorHandler;
     successExit := successHandler (exits wm);
     _telltale := "machine-as-script" |}.

(** Whether [wetMachine(inputConfiguration)] is a call of a function: a
    built machine is one, a value taken as it is need not be. *)
Definition callable (machineDef : jsval) : bool :=
  negb (isWet machineDef) || isFunction machineDef.

(** [opts = opts||{}] followed by the choice of the definition. *)
Definition optsOf (opts0 : jsval) : jsval :=
  (selectMachineDef (if truthy opts0 then opts0 else VObj [])).1.

Definition machineDefOf (opts0 : jsval) : jsval :=
  let machineDef :=
    (selectMachineDef (if truthy opts0 then opts0 else VObj [])).2 in
  if truthy machineDef then machineDef else VObj [].

Definition wetMachineOf (opts0 : jsval) : WetMachine :=
  wetMachine (machineDefOf opts0).

(** [inputConfiguration] as it enters the [_.reduce]. *)
Definition inputConfigurationOf (opts0 : jsval)
    (argv : list (string * jsval)) (env : gmap string string)
  : outcome (list (string * jsval)) :=
  assemble (envVarNamespace (optsOf opts0)) env
           (inputs (wetMachineOf opts0)) (prop "args" (optsOf opts0)) argv.

(** [program.parse(process.argv)], once the flags are registered: whether
    it returns. *)
Definition commandLineAccepted (opts0 : jsval) (program0 : Commander)
  : bool :=
  let program := (deriveFlags (inputs (wetMachineOf opts0)) program0).2 in
  parse_returns program (options program).

Definition runMachineAsScript (opts0 : jsval) (program0 : Commander)
    (argv : list (string * jsval)) (env : gmap string string) : Run :=
  let wm := wetMachineOf opts0 in
  {| caller_opts := if truthy opts0 then optsOf opts0 else opts0;
     program := (deriveFlags (inputs wm) program0).2;
     returned :=
       if commandLineAccepted opts0 program0 then
         inputConfiguration ← inputConfigurationOf opts0 argv env;
         coerced ← coerce (inputs wm) inputConfiguration;
         if callable (machineDefOf opts0) then Ok (liveMachine wm coerced)
         else Throw (TypeError "wetMachine is not a function")
       else Throw ProcessExit |}.
End adapter.

(** ** Reference collaborators

    Small instances of the interfaces, used to run the adapter on concrete
    command lines. *)

Definition decode_string (v : jsval) : option string :=
  match v with
  | VStr s => Some s
  | _ => None
  end.

Definition decode_inputDef (v : jsval) : inputDef :=
  {| description := decode_string (prop "description" v);
     friendlyName := decode_string (prop "friendlyName" v);
     example := prop "example" v |}.

Definition decode_exitDef (v : jsval) : exitDef :=
  {| exit_example := prop "example" v;
     getExample := prop "getExample" v;
     like := prop "like" v;
     itemOf := prop "itemOf" v |}.

(** Modelled from the spec: the [machine] runtime is not part of the
    sources.  It exposes the map of input descriptors and the map of exit
    descriptors of the definition it was built from; an already built
    instance carries the same two maps. *)
Definition decode_machine (def : jsval) : WetMachine :=
  {| inputs := map (fun kv => (kv.1, decode_inputDef kv.2))
                   (own_props (prop "inputs" def));
     exits := map (fun kv => (kv.1, decode_exitDef kv.2))
                  (own_props (prop "exits" def)) |}.

Definition reference_machine : MachineRuntime :=
  {| Machine_build := decode_machine; asWetMachine := decode_machine |}.

Inductive schema : Type :=
| TString | TNumber | TBoolean | TList | TDictionary | TOther.

(** Modelled from the spec: [rttc.infer] is not part of the sources.  The
    type is inferred from the shape of the example: a number, a boolean, a
    string, a list, a dictionary. *)
Definition reference_infer (ex : jsval) : schema :=
  match ex with
  | VStr _ => TString
  | VNum _ | VFrac _ => TNumber
  | VBool _ => TBoolean
  | VArr _ => TList
  | VObj _ => TDictionary
  | _ => TOther
  end.

Definition bare_number (s : string) : option Z :=
  match s with
  | EmptyString => None
  | String "-" (String c rest) => Z.opp <$> (Z.of_N <$> digits 0 (String c rest))
  | _ => Z.of_N <$> digits 0 s
  end.

(** Modelled from the spec: [rttc.parseHuman] is not part of the sources.
    A bare whole number or boolean is parsed for a number or boolean type,
    and any other string gives 0 for a number type; for the other types the
    string is kept, where [rttc] would parse a list or a dictionary, or
    throw. *)
Definition reference_parseHuman (s : string) (ty : schema) (mode : bool) : jsval :=
  match ty with
  | TNumber => default (VNum 0) (VNum <$> bare_number s)
  | TBoolean =>
      if String.eqb s "true" then VBool true
      else if String.eqb s "false" then VBool false
      else VStr s
  | _ => VStr s
  end.

Definition reference_rttc : Rttc :=
  {| typeSchema := schema;
     infer := reference_infer;
     parseHuman := reference_parseHuman |}.

(** [_.kebabCase] is only used to name an anonymous definition; the
    reference leaves the friendly name as it is. *)
Definition reference_lodash : Lodash :=
  {| kebabCase := to_str |}.

(** ** Worked command lines *)

(** A program with nothing registered, on a command line that
    [commander] accepts. *)
Definition fresh_program : Commander :=
  {| usage := ""; options := []; parse_returns := fun _ => true |}.

(** A definition with three inputs, two of which share a first letter. *)
Definition sample_def : jsval :=
  VObj [("inputs",
         VObj [("path", VObj [("description", VStr "The path");
                              ("example", VStr "/tmp")]);
               ("port", VObj [("example", VNum 1)]);
               ("count", VObj [("example", VNum 1)])])].

Definition sample_inputs : list (string * inputDef) :=
  [("path", {| description := Some "The path"; friendlyName := None;
               example := VStr "/tmp" |});
   ("port", {| description := None; friendlyName := None;
               example := VNum 1 |});
   ("count", {| description := None; friendlyName := None;
                example := VNum 1 |})].

(** [script --count 42] *)
Definition argv_count_42 : list (string * jsval) :=
  [("_", VArr []); ("count", VNum 42); ("$0", VStr "script")].

(** [script a b --path x] *)
Definition argv_a_b : list (string * jsval) :=
  [("_", VArr [VStr "a"; VStr "b"]); ("path", VStr "x"); ("$0", VStr "script")].

Definition run_reference : jsval → Commander → list (string * jsval) →
                           gmap string string → Run :=
  @runMachineAsScript reference_machine reference_rttc reference_lodash.


Definition no_output_declared : exitDef :=
  {| exit_example := VUndef; getExample := VUndef; like := VUndef;
     itemOf := VUndef |}.

(** A definition whose success exit declares a string output. *)
Definition sample_def_with_output : jsval :=
  VObj [("inputs", VObj []);
        ("exits", VObj [("success", VObj [("example", VStr "some text")])])].


(** Two thrown objects, with and without a trace. *)
Definition boom : jsval :=
  VObj [("message", VStr "boom");
        ("stack", VStr "Error: boom at script.js:1:1")].

Definition boom_without_trace : jsval :=
  VObj [("message", VStr "boom"); ("stack", VStr "")].

(** * Properties *)

(** ** Worked examples *)

Example to_str_42 : to_str (VNum 42) = "42".
Proof. reflexivity. Qed.

Example to_str_arr :
  to_str (VArr [VNum 1; VUndef; VStr "a"; VArr [VNum (-2); VNull]]) = "1,,a,-2,".
Proof. reflexivity. Qed.

Example sample_inputs_decoded :
  inputs (@wetMachineOf reference_machine reference_lodash sample_def)
  = sample_inputs.
Proof. reflexivity. Qed.

(** [___port=80 script a b --path x] with the positional name [path]. *)
Example sample_run_configured :
  match returned (run_reference
                    (VObj [("machine", sample_def); ("args", VArr [VStr "path"])])
                    fresh_program argv_a_b {[ "___port" := "80" ]}) with
  | Ok lm => Some (configured lm, _telltale lm)
  | Throw _ => None
  end
  = Some ([("path", VStr "a"); ("port", VNum 80)], "machine-as-script").
Proof. by vm_compute. Qed.

Example sample_flags :
  map flags (options (program (run_reference sample_def fresh_program
                                 argv_count_42 ∅)))
  = ["-p, --path"; "--port"; "-c, --count"].
Proof. reflexivity. Qed.

(** ** Dictionaries *)

Section dict_facts.
Context {V : Type}.
Implicit Types (d : list (string * V)) (k : string) (v : V).

Lemma eqb_refl' k : String.eqb k k = true.
Proof. by apply String.eqb_eq. Qed.

Lemma eqb_ne k k' : k ≠ k' → String.eqb k k' = false.
Proof. intros Hne. by apply String.eqb_neq. Qed.

Lemma get_set_eq k v d : Dict.get k (Dict.set k v d) = Some v.
Proof.
  induction d as [|[k' v'] d IH]; simpl.
  - by rewrite eqb_refl'.
  - destruct (String.eqb k k') eqn:E; simpl; rewrite ?eqb_refl', ?E; done.
Qed.

Lemma get_set_ne k k' v d :
  k ≠ k' → Dict.get k' (Dict.set k v d) = Dict.get k' d.
Proof.
  intros Hne. induction d as [|[k0 v0] d IH]; simpl.
  - rewrite eqb_ne by congruence. done.
  - destruct (String.eqb k k0) eqn:E; simpl.
    + apply String.eqb_eq in E as <-.
      rewrite !eqb_ne by congruence. done.
    + by rewrite IH.
Qed.

Lemma get_del_eq k d : Dict.get k (Dict.del k d) = None.
Proof.
  induction d as [|[k' v'] d IH]; simpl; [done|].
  destruct (String.eqb k k') eqn:E; simpl; rewrite ?E; done.
Qed.

Lemma get_del_ne k k' d :
  k ≠ k' → Dict.get k' (Dict.del k d) = Dict.get k' d.
Proof.
  intros Hne. induction d as [|[k0 v0] d IH]; simpl; [done|].
  destruct (String.eqb k k0) eqn:E; simpl.
  - apply String.eqb_eq in E as <-. rewrite eqb_ne by congruence. done.
  - by rewrite IH.
Qed.

Lemma get_None k d : Dict.get k d = None ↔ k ∉ Dict.keys d.
Proof.
  unfold Dict.keys. induction d as [|[k' v'] d IH]; simpl.
  - split; [intros _; apply not_elem_of_nil | done].
  - rewrite not_elem_of_cons. destruct (String.eqb k k') eqn:E.
    + apply String.eqb_eq in E. split; [done | tauto].
    + apply String.eqb_neq in E. rewrite IH. tauto.
Qed.

Lemma get_Some_key k v d : Dict.get k d = Some v → k ∈ Dict.keys d.
Proof.
  intros Hg. destruct (decide (k ∈ Dict.keys d)) as [|Hn]; [done|].
  apply get_None in Hn. congruence.
Qed.

Lemma key_get_Some k d : k ∈ Dict.keys d → is_Some (Dict.get k d).
Proof.
  intros Hin. destruct (Dict.get k d) eqn:E; [by eexists|].
  apply get_None in E. done.
Qed.



End dict_facts.

(** ** The options object *)

Lemma prop_delete_ne k k' (v : jsval) :
  k ≠ k' → prop k' (delete_prop k v) = prop k' v.
Proof.
  intros Hne. destruct v; simpl; try done; by rewrite get_del_ne.
Qed.

Lemma prop_delete_eq k (v : jsval) : prop k (delete_prop k v) = VUndef.
Proof. destruct v; simpl; try done; by rewrite get_del_eq. Qed.

Lemma prop_falsy k (v : jsval) : truthy v = false → prop k v = VUndef.
Proof. by destruct v. Qed.

Lemma prop_optsOf k (opts0 : jsval) :
  k ≠ "machine" → prop k (optsOf opts0) = prop k opts0.
Proof.
  intros Hne. unfold optsOf, selectMachineDef.
  destruct (truthy opts0) eqn:Ht.
  - destruct (truthy (prop "machine" opts0)); simpl; [|done].
    by apply prop_delete_ne.
  - simpl. by rewrite prop_falsy.
Qed.

(** C8. The environment-variable prefix is the three-character string
    [___] unless [opts.envVarNamespace] is a string, in which case it is
    that string; any other value of the option leaves the default. *)
Theorem envVarNamespace_default_or_string (opts0 : jsval) :
  (∀ s, prop "envVarNamespace" opts0 = VStr s →
        envVarNamespace (optsOf opts0) = s)
  ∧ (isString (prop "envVarNamespace" opts0) = false →
     envVarNamespace (optsOf opts0) = "___")
  ∧ String.length "___" = 3.
Proof.
  unfold envVarNamespace. rewrite prop_optsOf by done.
  split_and!; [by intros s -> | | done].
  by destruct (prop "envVarNamespace" opts0).
Qed.

Lemma envVarNamespace_default_or_string_witness :
  envVarNamespace
    (optsOf (VObj [("machine", VObj []); ("envVarNamespace", VStr "APP_")]))
  = "APP_"
  ∧ envVarNamespace
      (optsOf (VObj [("machine", VObj []); ("envVarNamespace", VNum 7)]))
    = "___".
Proof.
  split.
  - apply (envVarNamespace_default_or_string
             (VObj [("machine", VObj []); ("envVarNamespace", VStr "APP_")])).
    reflexivity.
  - apply (envVarNamespace_default_or_string
             (VObj [("machine", VObj []); ("envVarNamespace", VNum 7)])).
    reflexivity.
Defined.

(** C10. With [opts.machine] set, the caller's options object loses its
    [machine] key, which becomes the machine definition; every other key
    keeps its value and its place. *)
Theorem machine_key_deleted_from_opts `{MachineRuntime} `{Rttc} `{Lodash}
    (opts : jsval) (program0 : Commander) (argv : list (string * jsval))
    (env : gmap string string) :
  truthy (prop "machine" opts) = true →
  let opts' := caller_opts (runMachineAsScript opts program0 argv env) in
  machineDefOf opts = prop "machine" opts
  ∧ Dict.get "machine" (own_props opts') = None
  ∧ own_props opts' = Dict.del "machine" (own_props opts)
  ∧ ∀ k, k ≠ "machine" →
         Dict.get k (own_props opts') = Dict.get k (own_props opts).
Proof.
  intros Hm. simpl. unfold optsOf, machineDefOf, selectMachineDef.
  assert (truthy opts = true) as -> by (by destruct opts).
  rewrite Hm. simpl. rewrite Hm.
  assert (own_props (delete_prop "machine" opts)
          = Dict.del "machine" (own_props opts)) as -> by (by destruct opts).
  split_and!; [done | apply get_del_eq | done |].
  intros k Hk. by apply get_del_ne.
Qed.

Lemma machine_key_deleted_from_opts_witness :
  own_props
    (caller_opts
       (run_reference
          (VObj [("machine", sample_def); ("envVarNamespace", VStr "APP_");
                 ("args", VArr [VStr "path"])])
          fresh_program argv_a_b ∅))
  = [("envVarNamespace", VStr "APP_"); ("args", VArr [VStr "path"])].
Proof.
  destruct (machine_key_deleted_from_opts
              (H:=reference_machine) (H0:=reference_rttc) (H1:=reference_lodash)
              (VObj [("machine", sample_def); ("envVarNamespace", VStr "APP_");
                     ("args", VArr [VStr "path"])])
              fresh_program argv_a_b ∅ eq_refl) as (_ & _ & Hown & _).
  exact Hown.
Defined.

(** ** Flag derivation *)

Section flag_facts.
Implicit Types (st : list string * Commander) (e : string * inputDef)
  (l : list (string * inputDef)) (s : string).

Lemma optShortcut_claims (S : list string) (n : string) :
  _shortcut n ∈ (optShortcut S n).2.
Proof.
  unfold optShortcut, contains. case_bool_decide; simpl; [done|].
  apply elem_of_app. right. by apply list_elem_of_singleton.
Qed.

Lemma optShortcut_mono (S : list string) (n : string) s :
  s ∈ S → s ∈ (optShortcut S n).2.
Proof.
  intros Hin. unfold optShortcut. destruct (contains _ _); simpl; [done|].
  apply elem_of_app. by left.
Qed.

Lemma optShortcut_inv (S : list string) (n : string) s :
  s ∈ (optShortcut S n).2 → s ∈ S ∨ s = _shortcut n.
Proof.
  unfold optShortcut. destruct (contains _ _); simpl; [by left|].
  rewrite elem_of_app, list_elem_of_singleton. tauto.
Qed.

Lemma flagStep_options st e :
  ∃ o, options (flagStep st e).2 = options st.2 ++ [o]
       ∧ flags o = optUsage (optShortcut st.1 e.1).1 ("--" +:+ e.1).
Proof.
  unfold flagStep. simpl.
  destruct (String.eqb (determineOptDescription e.2) ""); by eexists.
Qed.

Lemma flags_mono l : ∀ st s, s ∈ st.1 → s ∈ (fold_left flagStep l st).1.
Proof.
  induction l as [|e l IH]; intros st s Hin; simpl; [done|].
  apply IH. simpl. by apply optShortcut_mono.
Qed.

Lemma flags_inv l : ∀ st s,
  s ∈ (fold_left flagStep l st).1 →
  s ∈ st.1 ∨ ∃ e, e ∈ l ∧ s = _shortcut e.1.
Proof.
  induction l as [|e l IH]; intros st s Hin; simpl in *; [by left|].
  apply IH in Hin as [Hin|(e' & He' & ->)].
  - simpl in Hin. apply optShortcut_inv in Hin as [?| ->]; [by left|].
    right. exists e. split; [by left | done].
  - right. exists e'. split; [by right | done].
Qed.

Lemma flags_options_prefix l : ∀ st,
  ∃ extra, options (fold_left flagStep l st).2 = options st.2 ++ extra.
Proof.
  induction l as [|e l IH]; intros st; simpl.
  - exists []. by rewrite app_nil_r.
  - destruct (IH (flagStep st e)) as [extra ->].
    destruct (flagStep_options st e) as (o & -> & _).
    exists (o :: extra). by rewrite <- app_assoc.
Qed.

Lemma flags_options_length l : ∀ st,
  length (options (fold_left flagStep l st).2)
  = length (options st.2) + length l.
Proof.
  induction l as [|e l IH]; intros st; simpl; [lia|].
  rewrite IH. destruct (flagStep_options st e) as (o & -> & _).
  rewrite length_app. simpl. lia.
Qed.

(** The option registered for the entry that follows [l1]. *)
Lemma flags_option_at l1 e l2 st :
  flags <$> options (fold_left flagStep (l1 ++ e :: l2) st).2
              !! (length (options st.2) + length l1)
  = Some (optUsage (optShortcut (fold_left flagStep l1 st).1 e.1).1
                   ("--" +:+ e.1)).
Proof.
  rewrite fold_left_app. simpl.
  destruct (flags_options_prefix l2 (flagStep (fold_left flagStep l1 st) e))
    as [extra ->].
  destruct (flagStep_options (fold_left flagStep l1 st) e) as (o & -> & <-).
  rewrite <- flags_options_length, <- app_assoc.
  rewrite lookup_app_r by lia. by rewrite Nat.sub_diag.
Qed.

Lemma _shortcut_first_letter (c : ascii) (r n : string) :
  _shortcut n = _shortcut (String c r) → char0 n = char0 (String c r).
Proof.
  unfold _shortcut. destruct n as [|c' r']; simpl; [done|].
  by intros [= ->].
Qed.
End flag_facts.

Lemma flags_claimed_after (l1 l2 : list (string * inputDef))
    (e : string * inputDef) (st : list string * Commander) :
  _shortcut e.1 ∈ (fold_left flagStep (l1 ++ e :: l2) st).1.
Proof.
  rewrite fold_left_app. simpl. apply flags_mono. simpl.
  apply optShortcut_claims.
Qed.

Lemma flags_claimed_take (inputs : list (string * inputDef))
    (e : string * inputDef) (st : list string * Commander) (i k : nat) :
  inputs !! i = Some e → i < k →
  _shortcut e.1 ∈ (fold_left flagStep (take k inputs) st).1.
Proof.
  intros Hi Hik.
  assert (take k inputs !! i = Some e) as Ht
    by (rewrite lookup_take_lt; done).
  rewrite <- (take_drop_middle _ _ _ Ht). apply flags_claimed_after.
Qed.

Lemma flags_option_lookup (inputs : list (string * inputDef))
    (st : list string * Commander) (i : nat) (e : string * inputDef) :
  inputs !! i = Some e →
  flags <$> options (fold_left flagStep inputs st).2
              !! (length (options st.2) + i)
  = Some (optUsage (optShortcut (fold_left flagStep (take i inputs) st).1 e.1).1
                   ("--" +:+ e.1)).
Proof.
  intros Hi.
  pose proof (flags_option_at (take i inputs) e (drop (S i) inputs) st) as Hat.
  rewrite (take_drop_middle _ _ _ Hi) in Hat.
  rewrite length_take_le in Hat; [done|].
  apply Nat.lt_le_incl, (lookup_lt_Some _ _ _ Hi).
Qed.

(** C5. Of two inputs whose names start with the same letter, the later
    one is registered with its long flag only; the first input with that
    letter is registered with the short flag as well; and the letter stays
    claimed at every later point of the loop. *)
Theorem same_letter_first_input_gets_shortcut
    (inputs : list (string * inputDef)) (program0 : Commander)
    (i j : nat) (c : ascii) (ri rj : string) (di dj : inputDef) :
  inputs !! i = Some (String c ri, di) →
  inputs !! j = Some (String c rj, dj) →
  i < j →
  let shortcut := "-" +:+ String c "" in
  let registered k :=
    flags <$> options (deriveFlags inputs program0).2
                !! (length (options program0) + k) in
  registered j = Some ("--" +:+ String c rj)
  ∧ ((∀ h e, h < i → inputs !! h = Some e → char0 e.1 ≠ char0 (String c ri)) →
     registered i = Some (shortcut +:+ ", " +:+ "--" +:+ String c ri))
  ∧ (∀ k, i < k → shortcut ∈ (deriveFlags (take k inputs) program0).1)
  ∧ shortcut ∈ (deriveFlags inputs program0).1.
Proof.
  intros Hi Hj Hij shortcut registered. subst registered. unfold deriveFlags.
  set (st0 := ([], program_usage "[options]" program0)).
  change (options program0) with (options st0.2).
  assert (∀ k, i < k → shortcut ∈ (fold_left flagStep (take k inputs) st0).1)
    as Hclaimed.
  { intros k Hk. apply (flags_claimed_take _ _ _ _ _ Hi Hk). }
  split_and!.
  - rewrite (flags_option_lookup _ _ _ _ Hj). simpl.
    unfold optShortcut, contains.
    rewrite bool_decide_eq_true_2; [done|].
    apply (Hclaimed j Hij).
  - intros Hfirst.
    rewrite (flags_option_lookup _ _ _ _ Hi). simpl.
    unfold optShortcut, contains.
    rewrite bool_decide_eq_false_2; [done|].
    intros Hin. apply flags_inv in Hin as [Hin|(e & He & Heq)].
    + by apply elem_of_nil in Hin.
    + apply list_elem_of_lookup in He as [h He].
      apply lookup_take_Some in He as [He Hh].
      apply (Hfirst h e Hh He).
      symmetry in Heq. by apply _shortcut_first_letter in Heq.
  - done.
  - rewrite <- (take_ge inputs (S (length inputs))) by lia.
    apply Hclaimed. apply lookup_lt_Some in Hi. lia.
Qed.

(** [path] and [port]: only [path] gets [-p]. *)
Lemma same_letter_first_input_gets_shortcut_witness :
  flags <$> options (deriveFlags sample_inputs fresh_program).2 !! 1
  = Some "--port"
  ∧ flags <$> options (deriveFlags sample_inputs fresh_program).2 !! 0
    = Some "-p, --path".
Proof.
  destruct (same_letter_first_input_gets_shortcut sample_inputs fresh_program
              0 1 "p" "ath" "ort"
              {| description := Some "The path"; friendlyName := None;
                 example := VStr "/tmp" |}
              {| description := None; friendlyName := None;
                 example := VNum 1 |}
              eq_refl eq_refl) as (Hlater & Hfirst & _).
  - lia.
  - split; [exact Hlater|]. apply Hfirst. intros h e Hh. lia.
Defined.

(** ** Configuration assembly *)

Section assembly_facts.
Implicit Types (cfg : list (string * jsval)) (k name : string)
  (names toks : list jsval).




(** One look-up of the environment. *)
Lemma envStep_get ns (env : gmap string string) cfg e name :
  Dict.get name (envStep ns env cfg e)
  = if decide (e.1 = name)
    then match env !! (ns +:+ name) with
         | Some v => Some (VStr v)
         | None => Dict.get name cfg
         end
    else Dict.get name cfg.
Proof.
  unfold envStep. case_decide as Heq.
  - subst name. destruct (env !! _); [apply get_set_eq | done].
  - destruct (env !! _); [by apply get_set_ne | done].
Qed.

Lemma supplyEnv_get ns (env : gmap string string)
    (inputs : list (string * inputDef)) : ∀ cfg name,
  Dict.get name (supplyEnv ns env inputs cfg)
  = if decide (name ∈ Dict.keys inputs)
    then match env !! (ns +:+ name) with
         | Some v => Some (VStr v)
         | None => Dict.get name cfg
         end
    else Dict.get name cfg.
Proof.
  unfold supplyEnv, Dict.keys.
  induction inputs as [|e inputs IH]; intros cfg name; cbn [fold_left map].
  - by rewrite decide_False by apply not_elem_of_nil.
  - rewrite IH, envStep_get.
    destruct (decide (name ∈ map fst inputs)) as [Hin|Hin];
      destruct (decide (e.1 = name)) as [Heq|Hne].
    + rewrite decide_True by (by right). by destruct (env !! _).
    + rewrite decide_True by (by right). done.
    + rewrite decide_True by (subst; by left). done.
    + rewrite decide_False; [done|].
      rewrite not_elem_of_cons. split; [congruence | done].
Qed.





(** The positional override leaves every key it does not name alone. *)
Lemma positionalFrom_get_other names (tokens : jsval) k : ∀ i cfg cfg',
  (∀ nm, nm ∈ names → to_str nm ≠ k) →
  positionalFrom i names tokens cfg = Ok cfg' →
  Dict.get k cfg' = Dict.get k cfg.
Proof.
  induction names as [|nm names IH]; intros i cfg cfg' Hother Hrun;
    simpl in Hrun.
  - by injection Hrun as <-.
  - destruct (index_at tokens i) as [v|]; simpl in Hrun; [|done].
    rewrite (IH _ _ _ (λ nm' Hin, Hother nm' (list_elem_of_further _ _ _ Hin)) Hrun).
    apply get_set_ne. apply Hother. by left.
Qed.





End assembly_facts.



(** ** Positional arguments *)




(** ** Enumeration and coercion *)


Section enumerate_facts.
Implicit Types (d : list (string * jsval)) (k : string).








(** With no array index among the keys the order is the order of
    insertion. *)
Lemma enumerate_no_index d :
  Forall (λ kv, array_index kv.1 = None) d → enumerate d = d.
Proof.
  intros Hall. unfold enumerate.
  assert (omap (λ kv, (λ n, (n, kv)) <$> array_index kv.1) d = []) as ->.
  { induction Hall as [|kv d Hkv _ IH]; simpl; [done|]. by rewrite Hkv. }
  simpl. induction Hall as [|kv d Hkv _ IH]; [done|].
  rewrite filter_cons_True by done. by rewrite IH.
Qed.

Lemma get_elem_of {V} k (v : V) (l : list (string * V)) :
  NoDup (Dict.keys l) → (k, v) ∈ l → Dict.get k l = Some v.
Proof.
  unfold Dict.keys. induction l as [|[k0 v0] l IH]; simpl.
  - intros _ Hin. by apply elem_of_nil in Hin.
  - intros [Hk0 Hnd]%NoDup_cons [Heq|Hin]%elem_of_cons.
    + injection Heq as -> ->. by rewrite eqb_refl'.
    + rewrite eqb_ne; [by apply IH|]. intros ->. apply Hk0.
      apply list_elem_of_fmap. by exists (k0, v).
Qed.

End enumerate_facts.

Section coercion_facts.
Context `{Rttc}.
Implicit Types (inputs : list (string * inputDef))
  (memo cfg l : list (string * jsval)) (k : string).














End coercion_facts.

Section adapter_facts.
Context `{MachineRuntime} `{Rttc} `{Lodash}.
Implicit Types (opts : jsval) (program : Commander)
  (argv cfg : list (string * jsval)) (env : gmap string string).




End adapter_facts.

(** ** Unknown inputs *)




(** ** Coercion of declared inputs *)




(** ** Surplus positional names *)




(** ** The default exit handlers *)

Lemma returned_is_liveMachine `{MachineRuntime} `{Rttc} `{Lodash}
    (opts : jsval) (program0 : Commander) (argv : list (string * jsval))
    (env : gmap string string) (lm : LiveMachine) :
  returned (runMachineAsScript opts program0 argv env) = Ok lm →
  ∃ coerced, lm = liveMachine (wetMachineOf opts) coerced.
Proof.
  unfold runMachineAsScript. simpl.
  destruct (commandLineAccepted _ _); [|done].
  destruct (inputConfigurationOf opts argv env) as [cfg|]; simpl; [|done].
  destruct (coerce _ cfg) as [coerced|]; simpl; [|done].
  destruct (callable _); [|done].
  intros [= <-]. by eexists.
Qed.

(** The success handler as it is written: for a defined output and a
    success exit with neither an example, nor a [getExample] function, nor
    [like], nor [itemOf], it prints nothing at all; the ["OK."] message is
    what it prints for an undefined output. *)
Theorem success_output_without_example_prints_nothing
    `{MachineRuntime} `{Rttc} `{Lodash}
    (opts : jsval) (program0 : Commander) (argv : list (string * jsval))
    (env : gmap string string) (lm : LiveMachine) (success : exitDef)
    (output : jsval) :
  returned (runMachineAsScript opts program0 argv env) = Ok lm →
  Dict.get "success" (exits (wet lm)) = Some success →
  exit_example success = VUndef →
  isFunction (getExample success) = false →
  like success = VUndef →
  itemOf success = VUndef →
  output ≠ VUndef →
  successExit lm output = ([], Ok ())
  ∧ successExit lm VUndef = ([console_log (Chalk Green (VStr "OK."))], Ok ()).
Proof.
  intros [coerced ->]%returned_is_liveMachine Hsuccess Hex Hget Hlike Hitem
    Hout.
  simpl in *. unfold successHandler. split; [|done].
  rewrite Hsuccess. unfold expectsOutput. rewrite Hex, Hget, Hlike, Hitem.
  by destruct output.
Qed.

Lemma success_output_without_example_prints_nothing_witness :
  ∃ lm, returned (run_reference (VObj [("machine", sample_def)])
                    fresh_program argv_count_42 ∅) = Ok lm
        ∧ successExit lm (VStr "hello") = ([], Ok ()).
Proof.
  exists (liveMachine
            (@wetMachineOf reference_machine reference_lodash
               (VObj [("machine", sample_def)]))
            [("count", VNum 42)]).
  assert (returned (run_reference (VObj [("machine", sample_def)])
                      fresh_program argv_count_42 ∅)
          = Ok (liveMachine
                  (@wetMachineOf reference_machine reference_lodash
                     (VObj [("machine", sample_def)]))
                  [("count", VNum 42)])) as Hrun by (vm_compute; reflexivity).
  split; [exact Hrun|].
  apply (success_output_without_example_prints_nothing
           (H:=reference_machine) (H0:=reference_rttc) (H1:=reference_lodash)
           (VObj [("machine", sample_def)]) fresh_program argv_count_42 ∅
           _ no_output_declared (VStr "hello") Hrun);
    [reflexivity | reflexivity | reflexivity | reflexivity | reflexivity
    | discriminate].
Defined.

(** C1. The code at the failing input: the success exit of the sample
    machine declares no output, the handler is called with the defined
    output ["hello"], and no ["OK."] is printed (nothing is), where the
    claim has the generic message printed. *)
Lemma success_defined_output_counterexample :
  ∃ lm success,
    returned (run_reference (VObj [("machine", sample_def)])
                fresh_program argv_count_42 ∅) = Ok lm
    ∧ Dict.get "success" (exits (wet lm)) = Some success
    ∧ expectsOutput success = false
    ∧ isUndefined (VStr "hello") = false
    ∧ console_log (Chalk Green (VStr "OK."))
      ∉ (successExit lm (VStr "hello")).1.
Proof.
  exists (liveMachine
            (@wetMachineOf reference_machine reference_lodash
               (VObj [("machine", sample_def)]))
            [("count", VNum 42)]), no_output_declared.
  split_and!; [by vm_compute | done | done | done |].
  simpl. apply not_elem_of_nil.
Qed.

(** C7. Given an error object, the error handler of the returned machine
    prints the banner and then, on the error stream, the stack in gray when
    the error has one ([err.stack] is truthy), and the raw error
    otherwise. *)
Theorem error_handler_prints_banner_then_truthy_stack
    `{MachineRuntime} `{Rttc} `{Lodash}
    (opts : jsval) (program0 : Commander) (argv : list (string * jsval))
    (env : gmap string string) (lm : LiveMachine) (err : jsval) :
  returned (runMachineAsScript opts program0 argv env) = Ok lm →
  err ≠ VUndef →
  err ≠ VNull →
  errorExit lm err
  = ([banner;
      console_error (if truthy (prop "stack" err)
                     then Chalk Gray (prop "stack" err) else Plain err)],
     Ok ())
  ∧ (truthy (prop "stack" err) = true →
     errorExit lm err
     = ([banner; console_error (Chalk Gray (prop "stack" err))], Ok ()))
  ∧ (truthy (prop "stack" err) = false →
     errorExit lm err = ([banner; console_error (Plain err)], Ok ())).
Proof.
  intros [coerced ->]%returned_is_liveMachine Hundef Hnull. simpl.
  assert (errorHandler err
          = ([banner;
              console_error (if truthy (prop "stack" err)
                             then Chalk Gray (prop "stack" err)
                             else Plain err)], Ok ())) as Heq
    by (by destruct err).
  rewrite Heq. split_and!; [done | by intros -> | by intros ->].
Qed.

Lemma error_handler_prints_banner_then_truthy_stack_witness :
  ∃ lm, returned (run_reference (VObj [("machine", sample_def)])
                    fresh_program argv_count_42 ∅) = Ok lm
        ∧ errorExit lm boom
          = ([banner;
              console_error (Chalk Gray (VStr "Error: boom at script.js:1:1"))],
             Ok ()).
Proof.
  exists (liveMachine
            (@wetMachineOf reference_machine reference_lodash
               (VObj [("machine", sample_def)]))
            [("count", VNum 42)]).
  assert (returned (run_reference (VObj [("machine", sample_def)])
                      fresh_program argv_count_42 ∅)
          = Ok (liveMachine
                  (@wetMachineOf reference_machine reference_lodash
                     (VObj [("machine", sample_def)]))
                  [("count", VNum 42)])) as Hrun by (vm_compute; reflexivity).
  split; [exact Hrun|].
  destruct (error_handler_prints_banner_then_truthy_stack
              (H:=reference_machine) (H0:=reference_rttc) (H1:=reference_lodash)
              (VObj [("machine", sample_def)]) fresh_program argv_count_42 ∅
              _ boom Hrun) as (_ & Htruthy & _);
    [discriminate | discriminate |].
  apply Htruthy. reflexivity.
Defined.


(** * Further properties of the adapter *)

(** ** More on dictionaries *)

Section dict_more.
Context {V : Type}.
Implicit Types (d target source : list (string * V)) (k : string) (v : V).



(** [_.extend]: a key of the source wins, any other key keeps the value of
    the target. *)
Lemma get_extend k target source :
  NoDup (Dict.keys source) →
  Dict.get k (Dict.extend target source)
  = match Dict.get k source with
    | Some v => Some v
    | None => Dict.get k target
    end.
Proof.
  unfold Dict.extend. revert target.
  induction source as [|[k0 v0] source IH]; intros target Hnd; simpl; [done|].
  apply NoDup_cons in Hnd as [Hk0 Hnd]. simpl in Hk0.
  rewrite (IH _ Hnd). destruct (decide (k0 = k)) as [->|Hne].
  - rewrite eqb_refl'. apply get_None in Hk0. rewrite Hk0.
    apply get_set_eq.
  - rewrite (eqb_ne k k0) by congruence.
    destruct (Dict.get k source); [done|]. by apply get_set_ne.
Qed.
End dict_more.

(** ** The options object and the machine that is built *)



(** ** More on flag derivation *)

Section flag_more.
Implicit Types (st : list string * Commander) (e : string * inputDef)
  (l : list (string * inputDef)) (s : string).

Lemma flagStep_registered st e :
  ∃ o, options (flagStep st e).2 = options st.2 ++ [o]
       ∧ flags o = optUsage (optShortcut st.1 e.1).1 ("--" +:+ e.1)
       ∧ optionDescription o
         = (if String.eqb (determineOptDescription e.2) "" then None
            else Some (determineOptDescription e.2)).
Proof.
  unfold flagStep. simpl.
  destruct (String.eqb (determineOptDescription e.2) ""); by eexists.
Qed.

Lemma flags_usage l : ∀ st, usage (fold_left flagStep l st).2 = usage st.2.
Proof.
  induction l as [|e l IH]; intros st; simpl; [done|]. by rewrite IH.
Qed.

Lemma flags_description_at l1 e l2 st :
  optionDescription <$> options (fold_left flagStep (l1 ++ e :: l2) st).2
                          !! (length (options st.2) + length l1)
  = Some (if String.eqb (determineOptDescription e.2) "" then None
          else Some (determineOptDescription e.2)).
Proof.
  rewrite fold_left_app. simpl.
  destruct (flags_options_prefix l2 (flagStep (fold_left flagStep l1 st) e))
    as [extra ->].
  destruct (flagStep_registered (fold_left flagStep l1 st) e)
    as (o & -> & _ & <-).
  rewrite <- flags_options_length, <- app_assoc.
  rewrite lookup_app_r by lia. by rewrite Nat.sub_diag.
Qed.

Lemma flags_NoDup l : ∀ st, NoDup st.1 → NoDup (fold_left flagStep l st).1.
Proof.
  induction l as [|e l IH]; intros st Hnd; simpl; [done|].
  apply IH. simpl. unfold optShortcut, contains.
  case_bool_decide as Hin; simpl; [done|].
  apply NoDup_app. split_and!; [done | | apply NoDup_singleton].
  intros x Hx ->%list_elem_of_singleton. done.
Qed.

Lemma flags_claimed l : ∀ st s,
  s ∈ (fold_left flagStep l st).1
  ↔ s ∈ st.1 ∨ s ∈ map (λ e, _shortcut e.1) l.
Proof.
  intros st s. split.
  - intros [Hin|(e & He & ->)]%flags_inv; [by left|].
    right. apply list_elem_of_fmap. by exists e.
  - intros [Hin|Hin]; [by apply flags_mono|].
    apply list_elem_of_fmap in Hin as (e & -> & He).
    apply list_elem_of_split in He as (l1 & l2 & ->).
    apply flags_claimed_after.
Qed.
End flag_more.

Lemma flags_options_fresh (l : list (string * inputDef)) :
  ∀ (S : list string) (P P' : Commander),
    options (fold_left flagStep l (S, P)).2
    = options P ++ drop (length (options P'))
                        (options (fold_left flagStep l (S, P')).2).
Proof.
  induction l as [|e l IH]; intros S P P'; simpl.
  - by rewrite drop_all, app_nil_r.
  - destruct (flagStep_registered (S, P) e) as (o & Ho & Hflags & Hdesc).
    destruct (flagStep_registered (S, P') e) as (o' & Ho' & Hflags' & Hdesc').
    assert (o = o') as <-.
    { destruct o, o'. simpl in *. congruence. }
    destruct (flagStep (S, P) e) as [S1 P1] eqn:E1.
    destruct (flagStep (S, P') e) as [S1' P1'] eqn:E1'.
    assert (S1 = S1') as <-.
    { apply (f_equal fst) in E1, E1'. simpl in E1, E1'. congruence. }
    simpl in Ho, Ho'.
    rewrite (IH S1 P1 P1'), Ho.
    destruct (flags_options_prefix l (S1, P1')) as [extra Hextra].
    simpl in Hextra. rewrite Hextra, Ho'.
    rewrite <- !app_assoc. f_equal.
    rewrite drop_app_length.
    by rewrite (app_assoc (options P') [o] extra), drop_app_length.
Qed.

(** X2. Flag derivation sets the usage line to [[options]] and appends
    one option per declared input to the options the program already
    holds, which it neither drops nor changes.  The options appended do not
    depend on the program they are appended to: deriving the flags of the
    same inputs again registers every option a second time. *)
Theorem one_option_per_input_appended (inputs : list (string * inputDef)) :
  ∃ added,
    length added = length inputs
    ∧ ∀ program0,
        usage (deriveFlags inputs program0).2 = "[options]"
        ∧ options (deriveFlags inputs program0).2 = options program0 ++ added.
Proof.
  exists (options (deriveFlags inputs fresh_program).2). split.
  - unfold deriveFlags. rewrite flags_options_length. simpl. lia.
  - intros program0. unfold deriveFlags. rewrite flags_usage.
    split; [done|].
    rewrite (flags_options_fresh inputs []
               (program_usage "[options]" program0)
               (program_usage "[options]" fresh_program)).
    simpl. by rewrite drop_0.
Qed.

(** X3. An input is registered with a short flag exactly when no earlier
    input yields the same short flag; its long flag is always there. *)
Theorem short_flag_iff_not_taken_earlier (inputs : list (string * inputDef))
    (program0 : Commander) (i : nat) (name : string) (def : inputDef) :
  inputs !! i = Some (name, def) →
  flags <$> options (deriveFlags inputs program0).2
              !! (length (options program0) + i)
  = Some (if bool_decide
               (_shortcut name ∈ map (λ e, _shortcut e.1) (take i inputs))
          then "--" +:+ name
          else _shortcut name +:+ ", " +:+ "--" +:+ name).
Proof.
  intros Hi. unfold deriveFlags.
  set (st0 := ([], program_usage "[options]" program0)).
  change (options program0) with (options st0.2).
  rewrite (flags_option_lookup _ _ _ _ Hi). simpl.
  unfold optShortcut, contains. f_equal.
  rewrite (bool_decide_ext
             (_shortcut name ∈ (fold_left flagStep (take i inputs) st0).1)
             (_shortcut name ∈ map (λ e, _shortcut e.1) (take i inputs))).
  - by case_bool_decide.
  - rewrite flags_claimed. simpl. split; [|by right].
    intros [Hin|Hin]; [by apply elem_of_nil in Hin | done].
Qed.

Lemma short_flag_iff_not_taken_earlier_witness :
  flags <$> options (deriveFlags sample_inputs fresh_program).2 !! 2
  = Some "-c, --count".
Proof.
  apply (short_flag_iff_not_taken_earlier sample_inputs fresh_program 2
           "count"
           {| description := None; friendlyName := None; example := VNum 1 |}).
  reflexivity.
Defined.

(** X4. [shortcutsSoFar] never holds a short flag twice, and at the end
    of the loop it holds exactly the short flags that the declared inputs
    yield. *)
Theorem shortcutsSoFar_distinct_and_exact (inputs : list (string * inputDef))
    (program0 : Commander) :
  NoDup (deriveFlags inputs program0).1
  ∧ ∀ s, s ∈ (deriveFlags inputs program0).1
         ↔ ∃ e, e ∈ inputs ∧ s = _shortcut e.1.
Proof.
  unfold deriveFlags. split.
  - apply flags_NoDup. simpl. apply NoDup_nil_2.
  - intros s. rewrite flags_claimed, list_elem_of_fmap. simpl. split.
    + intros [Hin|(e & -> & He)]; [by apply elem_of_nil in Hin|].
      by exists e.
    + intros (e & He & ->). right. by exists e.
Qed.

(** X5. The description registered with an option is the input's
    description or, when that is missing or empty, its friendly name; when
    it starts with an ASCII character, that character is lower-cased and
    the rest is as it is.  When both are missing or empty the option is
    registered without a description. *)
Theorem option_description_lowercases_first_letter
    (inputs : list (string * inputDef)) (program0 : Commander) (i : nat)
    (name : string) (def : inputDef) :
  inputs !! i = Some (name, def) →
  let registered :=
    optionDescription <$> options (deriveFlags inputs program0).2
                            !! (length (options program0) + i) in
  (∀ c r, description def = Some (String c r) →
          (N_of_ascii c < 128)%N →
          registered = Some (Some (String (toLowerCase_ascii c) r)))
  ∧ (description def = None ∨ description def = Some "" →
     ∀ c r, friendlyName def = Some (String c r) →
            (N_of_ascii c < 128)%N →
            registered = Some (Some (String (toLowerCase_ascii c) r)))
  ∧ (description def = None ∨ description def = Some "" →
     friendlyName def = None ∨ friendlyName def = Some "" →
     registered = Some None).
Proof.
  intros Hi registered. subst registered. unfold deriveFlags.
  set (st0 := ([], program_usage "[options]" program0)).
  change (options program0) with (options st0.2).
  pose proof (flags_description_at (take i inputs) (name, def)
                (drop (S i) inputs) st0) as Hat.
  rewrite (take_drop_middle _ _ _ Hi) in Hat.
  rewrite length_take_le in Hat
    by apply Nat.lt_le_incl, (lookup_lt_Some _ _ _ Hi).
  rewrite Hat. simpl. unfold determineOptDescription, or_string.
  split_and!.
  - by intros c r -> _.
  - by intros [-> | ->] c r -> _.
  - by intros [-> | ->] [-> | ->].
Qed.

Lemma option_description_lowercases_first_letter_witness :
  optionDescription <$> options (deriveFlags sample_inputs fresh_program).2 !! 0
  = Some (Some "the path").
Proof.
  destruct (option_description_lowercases_first_letter sample_inputs
              fresh_program 0 "path"
              {| description := Some "The path"; friendlyName := None;
                 example := VStr "/tmp" |} eq_refl) as [Hdesc _].
  apply (Hdesc "T"%char "he path"); [reflexivity|]. vm_compute. reflexivity.
Defined.

(** ** More on configuration assembly *)

Section assembly_more.
Implicit Types (cfg : list (string * jsval)) (k name : string)
  (names : list jsval) (tokens : jsval).

Lemma is_Some_get_keys {V} k (d : list (string * V)) :
  is_Some (Dict.get k d) ↔ k ∈ Dict.keys d.
Proof.
  split; [intros [v Hv]; by eapply get_Some_key | apply key_get_Some].
Qed.

Lemma elem_of_keys_supplyEnv ns (env : gmap string string)
    (inputs : list (string * inputDef)) cfg k :
  k ∈ Dict.keys (supplyEnv ns env inputs cfg)
  ↔ k ∈ Dict.keys cfg
    ∨ (k ∈ Dict.keys inputs ∧ is_Some (env !! (ns +:+ k))).
Proof.
  rewrite <- (is_Some_get_keys k (supplyEnv ns env inputs cfg)).
  rewrite <- (is_Some_get_keys k cfg), supplyEnv_get.
  case_decide as Hin.
  - destruct (env !! (ns +:+ k)) as [v|].
    + split; [intros _; right; split; [done | by eexists] | by eexists].
    + split; [by left | intros [?|[_ [? ?]]]; done].
  - split; [by left | intros [?|[Hk _]]; done].
Qed.


Lemma nullish_or_defined tokens :
  (tokens = VUndef ∨ tokens = VNull) ∨ (tokens ≠ VUndef ∧ tokens ≠ VNull).
Proof. destruct tokens; auto. Qed.

Lemma index_at_defined tokens (i : nat) :
  tokens ≠ VUndef → tokens ≠ VNull → ∃ v, index_at tokens i = Ok v.
Proof. intros Hu Hn. destruct tokens; simpl; try done; by eexists. Qed.

Lemma positionalFrom_defined names tokens : ∀ i cfg,
  tokens ≠ VUndef → tokens ≠ VNull →
  ∃ cfg', positionalFrom i names tokens cfg = Ok cfg'.
Proof.
  induction names as [|nm names IH]; intros i cfg Hu Hn; simpl; [by eexists|].
  destruct (index_at_defined tokens i Hu Hn) as [v ->]. simpl. by apply IH.
Qed.

Lemma positionalFrom_nullish nm names tokens i cfg :
  tokens = VUndef ∨ tokens = VNull →
  ∃ msg, positionalFrom i (nm :: names) tokens cfg = Throw (TypeError msg).
Proof. intros [-> | ->]; simpl; by eexists. Qed.
End assembly_more.

Lemma assembly_throw_is_TypeError (ns : string) (env : gmap string string)
    (inputs : list (string * inputDef)) (opts_args : jsval)
    (argv : list (string * jsval)) (e : exn) :
  assemble ns env inputs opts_args argv = Throw e →
  ∃ msg, e = TypeError msg.
Proof.
  unfold assemble, supplyPositional. intros Hrun.
  destruct opts_args as [| | | | |names| | |]; try done.
  destruct names as [|nm names]; [done|].
  destruct (nullish_or_defined (argv_ argv)) as [Htok|[Hu Hn]].
  - destruct (positionalFrom_nullish nm names (argv_ argv) 0
                (supplyArgs argv (supplyEnv ns env inputs (supplyCLI argv)))
                Htok) as [msg Hmsg].
    exists msg. congruence.
  - destruct (positionalFrom_defined (nm :: names) (argv_ argv) 0
                (supplyArgs argv (supplyEnv ns env inputs (supplyCLI argv)))
                Hu Hn) as [cfg' Hok].
    congruence.
Qed.

(** X6. The configuration taken from the flag parser holds every key of
    [yargs.argv] with its value, except [_] and [$0], which it never
    holds. *)
Theorem cli_flags_kept_except_positional_and_program
    (argv : list (string * jsval)) (k : string) :
  NoDup (Dict.keys argv) →
  Dict.get k (supplyCLI argv)
  = if bool_decide (k = "_" ∨ k = "$0") then None else Dict.get k argv.
Proof.
  intros Hnd. unfold supplyCLI. case_bool_decide as Hk.
  - destruct (decide (k = "$0")) as [->|Hne]; [apply get_del_eq|].
    destruct Hk as [->|?]; [|done].
    rewrite get_del_ne by done. apply get_del_eq.
  - rewrite !get_del_ne by (intros <-; apply Hk; auto).
    rewrite get_extend by done. by destruct (Dict.get k argv).
Qed.

Lemma cli_flags_kept_except_positional_and_program_witness :
  Dict.get "path" (supplyCLI argv_a_b) = Some (VStr "x")
  ∧ Dict.get "_" (supplyCLI argv_a_b) = None.
Proof.
  split.
  - apply (cli_flags_kept_except_positional_and_program argv_a_b "path").
    refine (bool_decide_unpack _ _). vm_compute. exact I.
  - apply (cli_flags_kept_except_positional_and_program argv_a_b "_").
    refine (bool_decide_unpack _ _). vm_compute. exact I.
Defined.

(** X15. The environment step looks at no variable other than
    [<namespace><inputName>] for the declared inputs: two environments that
    agree on those give the same configuration.  It changes no key that is
    not a declared input, and it removes none. *)
Theorem env_step_reads_only_declared_variables (ns : string)
    (env env' : gmap string string) (inputs : list (string * inputDef))
    (cfg : list (string * jsval)) :
  ((∀ name, name ∈ Dict.keys inputs →
            env !! (ns +:+ name) = env' !! (ns +:+ name)) →
   supplyEnv ns env inputs cfg = supplyEnv ns env' inputs cfg)
  ∧ (∀ k, k ∉ Dict.keys inputs →
          Dict.get k (supplyEnv ns env inputs cfg) = Dict.get k cfg)
  ∧ (∀ k, k ∈ Dict.keys cfg → k ∈ Dict.keys (supplyEnv ns env inputs cfg)).
Proof.
  split_and!.
  - unfold supplyEnv. revert cfg.
    induction inputs as [|e inputs IH]; intros cfg Hagree; simpl; [done|].
    unfold envStep at 2 4. rewrite <- (Hagree e.1) by (by left).
    apply IH. intros name Hin. apply Hagree. by right.
  - intros k Hk. by rewrite supplyEnv_get, decide_False.
  - intros k Hk. apply elem_of_keys_supplyEnv. by left.
Qed.

(** [OTHER_port] is not [___port]: it changes nothing. *)
Lemma env_step_reads_only_declared_variables_witness :
  supplyEnv "___" {[ "OTHER_port" := "81"; "___port" := "80" ]} sample_inputs
    (supplyCLI argv_a_b)
  = supplyEnv "___" {[ "___port" := "80" ]} sample_inputs (supplyCLI argv_a_b).
Proof.
  apply (env_step_reads_only_declared_variables "___"
           {[ "OTHER_port" := "81"; "___port" := "80" ]} {[ "___port" := "80" ]}
           sample_inputs (supplyCLI argv_a_b)).
  intros name Hin.
  apply elem_of_cons in Hin as [->|Hin]; [reflexivity|].
  apply elem_of_cons in Hin as [->|Hin]; [reflexivity|].
  apply list_elem_of_singleton in Hin as ->. reflexivity.
Defined.

(** X7. When the flag parser hands over its array of positional tokens,
    the [args] key of the assembled configuration is that array, whatever
    a flag or an environment variable gave [args], unless a positional name
    is itself [args]. *)
Theorem args_key_is_the_positional_array (ns : string)
    (env : gmap string string) (inputs : list (string * inputDef))
    (opts_args : jsval) (argv : list (string * jsval)) :
  isArray (argv_ argv) = true →
  (∀ names nm, opts_args = VArr names → nm ∈ names → to_str nm ≠ "args") →
  ∃ cfg, assemble ns env inputs opts_args argv = Ok cfg
         ∧ Dict.get "args" cfg = Some (argv_ argv).
Proof.
  intros Harr Hnames. unfold assemble, supplyPositional.
  assert (Dict.get "args"
            (supplyArgs argv (supplyEnv ns env inputs (supplyCLI argv)))
          = Some (argv_ argv)) as Hargs.
  { unfold supplyArgs. rewrite Harr. apply get_set_eq. }
  destruct opts_args as [| | | | |names| | |]; try by eexists.
  destruct (positionalFrom_defined names (argv_ argv) 0
              (supplyArgs argv (supplyEnv ns env inputs (supplyCLI argv))))
    as [cfg Hrun]; [by destruct (argv_ argv)..|].
  exists cfg. split; [exact Hrun|].
  rewrite <- Hargs. eapply positionalFrom_get_other; [|exact Hrun].
  intros nm Hnm. by eapply Hnames.
Qed.

(** [___args=env script a b --args flag], for a machine with an input
    named [args]. *)
Lemma args_key_is_the_positional_array_witness :
  ∃ cfg, assemble "___" {[ "___args" := "env" ]}
           [("args", {| description := None; friendlyName := None;
                        example := VArr [VStr "x"] |})]
           VUndef
           [("_", VArr [VStr "a"; VStr "b"]); ("args", VStr "flag");
            ("$0", VStr "script")] = Ok cfg
         ∧ Dict.get "args" cfg = Some (VArr [VStr "a"; VStr "b"]).
Proof.
  apply (args_key_is_the_positional_array "___" {[ "___args" := "env" ]}
           [("args", {| description := None; friendlyName := None;
                        example := VArr [VStr "x"] |})]
           VUndef
           [("_", VArr [VStr "a"; VStr "b"]); ("args", VStr "flag");
            ("$0", VStr "script")]).
  - reflexivity.
  - intros names nm Heq. discriminate.
Defined.

(** X8. Assembling the configuration throws exactly when positional
    names are given, at least one, and the flag parser left [_] undefined or
    null; what is thrown is then a [TypeError]. *)
Theorem assembly_throws_iff_names_without_tokens (ns : string)
    (env : gmap string string) (inputs : list (string * inputDef))
    (opts_args : jsval) (argv : list (string * jsval)) :
  ((∃ e, assemble ns env inputs opts_args argv = Throw e)
   ↔ ∃ nm names, opts_args = VArr (nm :: names)
                 ∧ (argv_ argv = VUndef ∨ argv_ argv = VNull))
  ∧ ∀ e, assemble ns env inputs opts_args argv = Throw e →
         ∃ msg, e = TypeError msg.
Proof.
  unfold assemble, supplyPositional.
  set (cfg := supplyArgs argv (supplyEnv ns env inputs (supplyCLI argv))).
  assert (∀ e, match opts_args with
               | VArr names => positionalFrom 0 names (argv_ argv) cfg
               | _ => Ok cfg
               end = Throw e →
               ∃ nm names msg, opts_args = VArr (nm :: names)
                               ∧ (argv_ argv = VUndef ∨ argv_ argv = VNull)
                               ∧ e = TypeError msg) as Hthrow.
  { intros e Hrun. destruct opts_args as [| | | | |names| | |]; try done.
    destruct names as [|nm names]; [done|].
    destruct (nullish_or_defined (argv_ argv)) as [Htok|[Hu Hn]].
    - destruct (positionalFrom_nullish nm names (argv_ argv) 0 cfg Htok)
        as [msg Hmsg].
      exists nm, names, msg. split_and!; [done | done | congruence].
    - destruct (positionalFrom_defined (nm :: names) (argv_ argv) 0 cfg
                  Hu Hn) as [cfg' Hok].
      congruence. }
  split.
  - split.
    + intros [e (nm & names & msg & -> & Htok & _)%Hthrow]. by exists nm, names.
    + intros (nm & names & -> & Htok).
      destruct (positionalFrom_nullish nm names (argv_ argv) 0 cfg Htok)
        as [msg Hmsg].
      by eexists.
  - intros e (nm & names & msg & _ & _ & ->)%Hthrow. by exists msg.
Qed.



(** [script a] with a positional name, had the flag parser left no [_]. *)
Lemma assembly_throws_iff_names_without_tokens_witness :
  ∃ e, assemble "___" ∅ sample_inputs (VArr [VStr "path"])
         [("path", VStr "x"); ("$0", VStr "script")] = Throw e.
Proof.
  apply (assembly_throws_iff_names_without_tokens "___" ∅ sample_inputs
           (VArr [VStr "path"]) [("path", VStr "x"); ("$0", VStr "script")]).
  exists (VStr "path"), []. split; [reflexivity | left; reflexivity].
Defined.

(** ** More on the default exit handlers *)

(** X12. For a defined output, the success handler of the returned
    machine prints the inspected output, and nothing else, when the success
    exit has an example, a [getExample] function, a [like] or an [itemOf];
    when the machine has no success exit at all the failed test is
    swallowed and nothing is printed.  The handler never throws. *)
Theorem success_output_with_example_is_inspected
    `{MachineRuntime} `{Rttc} `{Lodash}
    (opts : jsval) (program0 : Commander) (argv : list (string * jsval))
    (env : gmap string string) (lm : LiveMachine) (output : jsval) :
  returned (runMachineAsScript opts program0 argv env) = Ok lm →
  output ≠ VUndef →
  (∀ success,
     Dict.get "success" (exits (wet lm)) = Some success →
     exit_example success ≠ VUndef
     ∨ isFunction (getExample success) = true
     ∨ like success ≠ VUndef
     ∨ itemOf success ≠ VUndef →
     successExit lm output = ([console_log (Inspect output)], Ok ()))
  ∧ (Dict.get "success" (exits (wet lm)) = None →
     successExit lm output = ([], Ok ()))
  ∧ ∀ out, (successExit lm out).2 = Ok ().
Proof.
  intros [coerced ->]%returned_is_liveMachine Hout. simpl.
  unfold successHandler. split_and!.
  - intros success -> Hdeclared.
    assert (expectsOutput success = true) as ->.
    { unfold expectsOutput.
      destruct Hdeclared as [Hex|[Hfn|[Hlike|Hitem]]].
      - by destruct (exit_example success).
      - rewrite Hfn. by destruct (isUndefined (exit_example success)).
      - destruct (like success); try done;
          by destruct (isUndefined (exit_example success)),
                      (isFunction (getExample success)).
      - destruct (itemOf success); try done;
          by destruct (isUndefined (exit_example success)),
                      (isFunction (getExample success)),
                      (isUndefined (like success)). }
    by destruct output.
  - intros ->. by destruct output.
  - intros out. destruct (isUndefined out); simpl; [done|].
    destruct (Dict.get "success" _) as [success|]; [|done].
    by destruct (expectsOutput success).
Qed.

Lemma success_output_with_example_is_inspected_witness :
  ∃ lm, returned (run_reference sample_def_with_output fresh_program
                    [("_", VArr []); ("$0", VStr "script")] ∅) = Ok lm
        ∧ successExit lm (VStr "hello")
          = ([console_log (Inspect (VStr "hello"))], Ok ()).
Proof.
  assert (returned (run_reference sample_def_with_output fresh_program
                      [("_", VArr []); ("$0", VStr "script")] ∅)
          = Ok (liveMachine
                  (@wetMachineOf reference_machine reference_lodash
                     sample_def_with_output) [])) as Hres
    by (vm_compute; reflexivity).
  eexists. split; [exact Hres|].
  destruct (success_output_with_example_is_inspected
              (H:=reference_machine) (H0:=reference_rttc) (H1:=reference_lodash)
              sample_def_with_output fresh_program
              [("_", VArr []); ("$0", VStr "script")] ∅ _ (VStr "hello") Hres)
    as [Hinspect _]; [discriminate|].
  apply (Hinspect {| exit_example := VStr "some text"; getExample := VUndef;
                     like := VUndef; itemOf := VUndef |}).
  - reflexivity.
  - left. discriminate.
Defined.

(** X13. Called without an error ([undefined] or [null]), the error
    handler of the returned machine prints the banner and then throws a
    [TypeError] on reading the stack, before anything reaches the error
    stream.  Called with a value that has no properties of its own, such as
    a string, it prints the banner and the value as it is.  The banner is
    the first thing printed in every case. *)
Theorem error_handler_without_error_object
    `{MachineRuntime} `{Rttc} `{Lodash}
    (opts : jsval) (program0 : Commander) (argv : list (string * jsval))
    (env : gmap string string) (lm : LiveMachine) :
  returned (runMachineAsScript opts program0 argv env) = Ok lm →
  (∀ err, err = VUndef ∨ err = VNull →
          ∃ msg, errorExit lm err = ([banner], Throw (TypeError msg)))
  ∧ (∀ err, err ≠ VUndef → err ≠ VNull → own_props err = [] →
            errorExit lm err = ([banner; console_error (Plain err)], Ok ()))
  ∧ ∀ err, ∃ rest, (errorExit lm err).1 = banner :: rest.
Proof.
  intros [coerced ->]%returned_is_liveMachine. simpl. split_and!.
  - intros err [-> | ->]; by eexists.
  - intros err Hu Hn Hown.
    assert (prop "stack" err = VUndef) as Hstack.
    { destruct err; simpl in *; try done; by rewrite Hown. }
    destruct err; simpl in *; try done; by rewrite Hstack.
  - intros err. destruct err; by eexists.
Qed.

Lemma error_handler_without_error_object_witness :
  ∃ lm, returned (run_reference (VObj [("machine", sample_def)])
                    fresh_program argv_count_42 ∅) = Ok lm
        ∧ errorExit lm (VStr "it broke")
          = ([banner; console_error (Plain (VStr "it broke"))], Ok ()).
Proof.
  assert (returned (run_reference (VObj [("machine", sample_def)])
                      fresh_program argv_count_42 ∅)
          = Ok (liveMachine
                  (@wetMachineOf reference_machine reference_lodash
                     (VObj [("machine", sample_def)]))
                  [("count", VNum 42)])) as Hres by (vm_compute; reflexivity).
  eexists. split; [exact Hres|].
  destruct (error_handler_without_error_object
              (H:=reference_machine) (H0:=reference_rttc) (H1:=reference_lodash)
              (VObj [("machine", sample_def)]) fresh_program argv_count_42 ∅
              _ Hres) as (_ & Hplain & _).
  apply Hplain; [discriminate | discriminate | reflexivity].
Defined.


(** ** More on coercion *)

Section coercion_more.
Context `{Rttc}.
Implicit Types (inputs : list (string * inputDef))
  (memo cfg : list (string * jsval)).





End coercion_more.


